(** * cw20-plus: mint authority transfer and delegated spending allowances

    Shallow embedding of [execute_update_minter]
    (src/src/execute/execute_update_minter.rs) and of the allowance
    operations exercised by src/tests/allowances_tests.rs.  Storage is an
    explicit record threaded through every call; a call returns the storage
    as it left it together with its [Result]. *)

From stdpp Require Import base gmap strings list fin_maps pretty.
From Stdlib Require Import NArith.

Open Scope N_scope.

(** ** Basic cosmwasm types *)

(** [Addr] is a validated address, a string. *)
Abbreviation Addr := string (only parsing).

(** [Uint128]: an unsigned 128-bit integer. *)
Definition UINT128_MAX : N := 2 ^ 128 - 1.

Inductive OverflowOperation := OpAdd | OpSub.

Inductive StdError :=
  | GenericErr (msg : string)
  | ParseErr
  | Overflow (op : OverflowOperation) (lhs rhs : N).

Inductive ContractError :=
  | Std (e : StdError)
  | Unauthorized
  | CannotSetOwnAccount
  | InvalidExpiration
  | Expired.

(** Rust's [Result]. *)
Inductive result (A E : Type) :=
  | Ok (a : A)
  | Err (e : E).
Arguments Ok {A E} a.
Arguments Err {A E} e.

Definition map_err {A E F} (f : E -> F) (r : result A E) : result A F :=
  match r with Ok a => Ok a | Err e => Err (f e) end.

(** [Uint128::checked_add] / [checked_sub]. *)
Definition checked_add (a b : N) : result N StdError :=
  if decide (a + b <= UINT128_MAX) then Ok (a + b) else Err (Overflow OpAdd a b).

Definition checked_sub (a b : N) : result N StdError :=
  if decide (b <= a) then Ok (a - b) else Err (Overflow OpSub a b).

(** [Uint128::saturating_sub] ([N.sub] already floors at zero). *)
Definition saturating_sub (a b : N) : N := a - b.

(** [Env]: the block the call executes in (height, time in nanoseconds). *)
Record BlockInfo := { height : N; time : N; chain_id : string }.
Record Env := { block : BlockInfo; contract_address : Addr }.

(** [MessageInfo]: the caller. *)
Record MessageInfo := { sender : Addr }.

(** [Response]: attributes and sub-messages. *)
Record Cw20ReceiveMsg := { rcv_sender : string; rcv_amount : N; rcv_msg : list Byte.byte }.

Inductive CosmosMsg :=
  | WasmExecute (contract_addr : string) (msg : Cw20ReceiveMsg) (funds : list (string * N)).

Record Response := {
  messages : list CosmosMsg;
  attributes : list (string * string)
}.

Definition response_default : Response := {| messages := []; attributes := [] |}.

Definition add_attribute (k v : string) (r : Response) : Response :=
  {| messages := messages r; attributes := attributes r ++ [(k, v)] |}.

Definition add_message (m : CosmosMsg) (r : Response) : Response :=
  {| messages := messages r ++ [m]; attributes := attributes r |}.

(** ** Token configuration (crate::state) *)

Record MinterData := { minter : Addr; cap : option N }.

Record TokenInfo := {
  name : string;
  symbol : string;
  decimals : N;
  total_supply : N;
  mint : option MinterData
}.

Definition set_mint (t : TokenInfo) (m : option MinterData) : TokenInfo :=
  {| name := name t; symbol := symbol t; decimals := decimals t;
     total_supply := total_supply t; mint := m |}.

(** A storage slot holds bytes that either decode to a value or do not. *)
Inductive Stored (A : Type) :=
  | Decodable (a : A)
  | Undecodable.
Arguments Decodable {A} a.
Arguments Undecodable {A}.

(** [Item::may_load]: [Ok None] on an empty slot, a parse error on bytes
    that do not decode. *)
Definition may_load {A} (slot : option (Stored A)) : result (option A) StdError :=
  match slot with
  | None => Ok None
  | Some (Decodable a) => Ok (Some a)
  | Some Undecodable => Err ParseErr
  end.

(** ** Expiration (cw20::Expiration) *)

Inductive Expiration :=
  | AtHeight (h : N)
  | AtTime (t : N)
  | Never.

Global Instance Expiration_eq_dec : EqDecision Expiration.
Proof. solve_decision. Defined.

(** [Expiration::is_expired]. *)
Definition is_expired (e : Expiration) (b : BlockInfo) : bool :=
  match e with
  | AtHeight h => bool_decide (h <= height b)
  | AtTime t => bool_decide (t <= time b)
  | Never => false
  end.

(** [AllowanceResponse]: the stored allowance record. *)
Record AllowanceResponse := { allowance : N; expires : Expiration }.

Definition allowance_default : AllowanceResponse :=
  {| allowance := 0; expires := Never |}.

(** ** Contract storage *)

Record State := {
  TOKEN_INFO : option (Stored TokenInfo);
  BALANCES : gmap string N;
  ALLOWANCES : gmap (string * string) AllowanceResponse
}.

Definition set_token_info (st : State) (t : TokenInfo) : State :=
  {| TOKEN_INFO := Some (Decodable t); BALANCES := BALANCES st;
     ALLOWANCES := ALLOWANCES st |}.

Definition set_balances (st : State) (b : gmap string N) : State :=
  {| TOKEN_INFO := TOKEN_INFO st; BALANCES := b; ALLOWANCES := ALLOWANCES st |}.

Definition set_allowances (st : State) (a : gmap (string * string) AllowanceResponse) : State :=
  {| TOKEN_INFO := TOKEN_INFO st; BALANCES := BALANCES st; ALLOWANCES := a |}.

(** ** Execution: storage threaded through, [?] as an early return *)

(** A call's outcome: the storage as left by the call and its result. *)
Definition Exec := (State * result Response ContractError)%type.

Notation "'let?' x := e 'in' st ; k" :=
  (match e with Ok x => k | Err err => (st, Err err) end)
  (at level 200, x name, e at level 100, st at level 100, right associativity).

Section UpdateMinter.

(** [deps.api.addr_validate]. *)
Variable addr_validate : string -> result Addr StdError.

(** [execute_update_minter] (execute_update_minter.rs lines 5-41). *)
Definition execute_update_minter (st : State) (_env : Env) (info : MessageInfo)
    (new_minter : option string) : Exec :=
  let? loaded := map_err Std (may_load (TOKEN_INFO st)) in st;
  let? config := (match loaded with Some c => Ok c | None => Err Unauthorized end) in st;
  let? m := (match mint config with Some m => Ok m | None => Err Unauthorized end) in st;
  if negb (bool_decide (minter m = sender info)) then (st, Err Unauthorized) else
  let? validated :=
    (match new_minter with
     | None => Ok None
     | Some nm => map_err Std (match addr_validate nm with
                               | Ok a => Ok (Some a) | Err e => Err e end)
     end) in st;
  let minter_data :=
    match validated with
    | None => None
    | Some a => Some {| minter := a; cap := cap m |}
    end in
  let config' := set_mint config minter_data in
  let st' := set_token_info st config' in
  (st', Ok (add_attribute "new_minter"
              (match mint config' with Some md => minter md | None => "None" end)
              (add_attribute "action" "update_minter" response_default))).

End UpdateMinter.

(** ** Allowances and delegated spending

    The allowance module of the crate ([cw20_base::allowances], called by
    the tests) is not among the sources; the definitions below follow the
    specification of the Allowance Store and of the Spend Authorization
    Engine, and the Balance Ledger it calls. *)

Section Allowances.

Variable addr_validate : string -> result Addr StdError.

(** Modelled from the spec: [is_future] of the Expiration Policy
    ([Never] is always in the future, [AtHeight h] iff [height < h],
    [AtTime t] iff [time < t]). *)
Definition is_future (e : Expiration) (b : BlockInfo) : bool :=
  match e with
  | AtHeight h => bool_decide (height b < h)
  | AtTime t => bool_decide (time b < t)
  | Never => true
  end.

(** Modelled from the spec: the allowance lookup, total, with the empty
    default for an absent pair. *)
Definition load_allowance (st : State) (owner spender : Addr) : AllowanceResponse :=
  default allowance_default (ALLOWANCES st !! (owner, spender)).

(** Modelled from the spec: the expiration a mutation stores (the new one
    if given and strictly in the future, else the current one). *)
Definition next_expiration (env : Env) (current : AllowanceResponse)
    (new_expiration : option Expiration) : result Expiration ContractError :=
  match new_expiration with
  | None => Ok (expires current)
  | Some e => if is_future e (block env) then Ok e else Err InvalidExpiration
  end.

(** Modelled from the spec: [increase(owner, spender, delta, expires)]. *)
Definition execute_increase_allowance (st : State) (env : Env) (info : MessageInfo)
    (spender : string) (amount : N) (expires_ : option Expiration) : Exec :=
  let? spender_addr := map_err Std (addr_validate spender) in st;
  if bool_decide (spender_addr = sender info) then (st, Err CannotSetOwnAccount) else
  let current := load_allowance st (sender info) spender_addr in
  let? exp := next_expiration env current expires_ in st;
  let? remaining := map_err Std (checked_add (allowance current) amount) in st;
  let record := {| allowance := remaining; expires := exp |} in
  (set_allowances st (<[(sender info, spender_addr) := record]> (ALLOWANCES st)),
   Ok (add_attribute "amount" (pretty amount)
      (add_attribute "spender" spender
      (add_attribute "owner" (sender info)
      (add_attribute "action" "increase_allowance" response_default))))).

(** Modelled from the spec: [decrease(owner, spender, delta, expires)],
    flooring at zero and deleting a record that reaches zero. *)
Definition execute_decrease_allowance (st : State) (env : Env) (info : MessageInfo)
    (spender : string) (amount : N) (expires_ : option Expiration) : Exec :=
  let? spender_addr := map_err Std (addr_validate spender) in st;
  if bool_decide (spender_addr = sender info) then (st, Err CannotSetOwnAccount) else
  let key := (sender info, spender_addr) in
  let current := load_allowance st (sender info) spender_addr in
  let? exp := next_expiration env current expires_ in st;
  let remaining := saturating_sub (allowance current) amount in
  let allowances' :=
    if bool_decide (remaining = 0) then delete key (ALLOWANCES st)
    else <[key := {| allowance := remaining; expires := exp |}]> (ALLOWANCES st) in
  (set_allowances st allowances',
   Ok (add_attribute "amount" (pretty amount)
      (add_attribute "spender" spender
      (add_attribute "owner" (sender info)
      (add_attribute "action" "decrease_allowance" response_default))))).

(** Modelled from the spec: [deduct_for_spend(owner, spender, amount, ctx)],
    the single authorization path of the delegated spends. *)
Definition deduct_allowance (st : State) (owner spender : Addr) (b : BlockInfo)
    (amount : N) : result State ContractError :=
  let current := load_allowance st owner spender in
  if is_expired (expires current) b then Err Expired else
  match checked_sub (allowance current) amount with
  | Err e => Err (Std e)
  | Ok remaining =>
      let key := (owner, spender) in
      Ok (set_allowances st
            (if bool_decide (remaining = 0) then delete key (ALLOWANCES st)
             else <[key := {| allowance := remaining; expires := expires current |}]>
                    (ALLOWANCES st)))
  end.

(** Modelled from the spec: the Balance Ledger's checked decrement. *)
Definition debit (st : State) (addr : Addr) (amount : N) : result State ContractError :=
  match checked_sub (default 0 (BALANCES st !! addr)) amount with
  | Err e => Err (Std e)
  | Ok b => Ok (set_balances st (<[addr := b]> (BALANCES st)))
  end.

(** Modelled from the spec: the Balance Ledger's checked increment. *)
Definition credit (st : State) (addr : Addr) (amount : N) : result State ContractError :=
  match checked_add (default 0 (BALANCES st !! addr)) amount with
  | Err e => Err (Std e)
  | Ok b => Ok (set_balances st (<[addr := b]> (BALANCES st)))
  end.

(** Modelled from the spec: delegated transfer. *)
Definition execute_transfer_from (st : State) (env : Env) (info : MessageInfo)
    (owner recipient : Addr) (amount : N) : Exec :=
  let? st1 := deduct_allowance st owner (sender info) (block env) amount in st;
  let? st2 := debit st1 owner amount in st1;
  let? st3 := credit st2 recipient amount in st2;
  (st3, Ok (add_attribute "amount" (pretty amount)
           (add_attribute "by" (sender info)
           (add_attribute "to" recipient
           (add_attribute "from" owner
           (add_attribute "action" "transfer_from" response_default)))))).

(** Modelled from the spec: delegated burn (debit only). *)
Definition execute_burn_from (st : State) (env : Env) (info : MessageInfo)
    (owner : Addr) (amount : N) : Exec :=
  let? st1 := deduct_allowance st owner (sender info) (block env) amount in st;
  let? st2 := debit st1 owner amount in st1;
  (st2, Ok (add_attribute "amount" (pretty amount)
           (add_attribute "by" (sender info)
           (add_attribute "from" owner
           (add_attribute "action" "burn_from" response_default))))).

(** Modelled from the spec: delegated send, notifying the contract with the
    delegated caller as [sender]. *)
Definition execute_send_from (st : State) (env : Env) (info : MessageInfo)
    (owner contract : Addr) (amount : N) (msg : list Byte.byte) : Exec :=
  let? st1 := deduct_allowance st owner (sender info) (block env) amount in st;
  let? st2 := debit st1 owner amount in st1;
  let? st3 := credit st2 contract amount in st2;
  let notification :=
    WasmExecute contract
      {| rcv_sender := sender info; rcv_amount := amount; rcv_msg := msg |} [] in
  (st3, Ok (add_message notification
           (add_attribute "amount" (pretty amount)
           (add_attribute "by" (sender info)
           (add_attribute "to" contract
           (add_attribute "from" owner
           (add_attribute "action" "send_from" response_default))))))).

(** Modelled from the spec: the [GetAllowance] query. *)
Definition query_allowance (st : State) (owner spender : string)
    : result AllowanceResponse StdError :=
  match addr_validate owner with
  | Err e => Err e
  | Ok o =>
      match addr_validate spender with
      | Err e => Err e
      | Ok s => Ok (load_allowance st o s)
      end
  end.

(** ** Dispatch and the host's atomic commit *)

Inductive ExecuteMsg :=
  | IncreaseAllowance (spender : string) (amount : N) (expires_ : option Expiration)
  | DecreaseAllowance (spender : string) (amount : N) (expires_ : option Expiration)
  | TransferFrom (owner recipient : Addr) (amount : N)
  | BurnFrom (owner : Addr) (amount : N)
  | SendFrom (owner contract : Addr) (amount : N) (msg : list Byte.byte)
  | UpdateMinter (new_minter : option string).

Definition execute (st : State) (env : Env) (info : MessageInfo) (msg : ExecuteMsg) : Exec :=
  match msg with
  | IncreaseAllowance s a e => execute_increase_allowance st env info s a e
  | DecreaseAllowance s a e => execute_decrease_allowance st env info s a e
  | TransferFrom o r a => execute_transfer_from st env info o r a
  | BurnFrom o a => execute_burn_from st env info o a
  | SendFrom o c a m => execute_send_from st env info o c a m
  | UpdateMinter nm => execute_update_minter addr_validate st env info nm
  end.

(** The host keeps a call's writes only when it succeeds. *)
Definition commit (st : State) (x : Exec) : State :=
  match snd x with Ok _ => fst x | Err _ => st end.

(** States reachable from [st0] by a sequence of calls. *)
Inductive reachable (st0 : State) : State -> Prop :=
  | reach_refl : reachable st0 st0
  | reach_step st env info msg :
      reachable st0 st -> reachable st0 (commit st (execute st env info msg)).

End Allowances.

(** ** A concrete host: [MockApi] and [mock_env] *)

(** Address validation of the mock api: rejects the empty string. *)
Definition mock_addr_validate (s : string) : result Addr StdError :=
  match s with
  | EmptyString => Err (GenericErr "Invalid input: empty")
  | _ => Ok s
  end.

(** [mock_env]: height 12345, time 1571797419879305533 ns. *)
Definition mock_block : BlockInfo :=
  {| height := 12345; time := 1571797419879305533; chain_id := "cosmos-testnet-14002" |}.
Definition mock_env : Env := {| block := mock_block; contract_address := "cosmos2contract" |}.

Definition with_height (e : Env) (h : N) : Env :=
  {| block := {| height := h; time := time (block e); chain_id := chain_id (block e) |};
     contract_address := contract_address e |}.

Definition info_of (a : Addr) : MessageInfo := {| sender := a |}.

(** A token instantiated with a minter holding a cap. *)
Definition token_with_minter (m : Addr) : TokenInfo :=
  {| name := "Auto Gen"; symbol := "AUTO"; decimals := 3; total_supply := 12340000;
     mint := Some {| minter := m; cap := Some 99999999 |} |}.

Definition state_with_token (t : TokenInfo) : State :=
  {| TOKEN_INFO := Some (Decodable t); BALANCES := {[ "addr0001" := 12340000 ]};
     ALLOWANCES := ∅ |}.

(** Runs a sequence of calls through the host, which keeps the writes of
    the successful ones. *)
Fixpoint run (api : string -> result Addr StdError) (st : State)
    (calls : list (Env * MessageInfo * ExecuteMsg)) : State :=
  match calls with
  | [] => st
  | (env, info, msg) :: rest => run api (commit st (execute api st env info msg)) rest
  end.

Definition is_ok {A E} (r : result A E) : bool :=
  match r with Ok _ => true | Err _ => false end.

Example update_minter_by_other_fails :
  execute_update_minter mock_addr_validate (state_with_token (token_with_minter "minter"))
    mock_env (info_of "intruder") (Some "newbie")
  = (state_with_token (token_with_minter "minter"), Err Unauthorized).
Proof. reflexivity. Qed.

Example update_minter_keeps_cap :
  TOKEN_INFO (fst (execute_update_minter mock_addr_validate
    (state_with_token (token_with_minter "minter")) mock_env (info_of "minter") (Some "newbie")))
  = Some (Decodable (token_with_minter "newbie")).
Proof. reflexivity. Qed.

(** ** Lemmas on the building blocks *)

Lemma map_err_ok {A E F} (f : E -> F) (r : result A E) (a : A) :
  map_err f r = Ok a <-> r = Ok a.
Proof. destruct r; simpl; split; congruence. Qed.

(** ** Claims on [execute_update_minter] *)

(** C1: [update_minter] fails with [Unauthorized] exactly when no token
    configuration is stored, or it holds no mint authority, or the caller
    is not the stored minter; such a failure leaves the storage as it was. *)
Theorem update_minter_unauthorized_iff api st env info new_minter :
  (snd (execute_update_minter api st env info new_minter) = Err Unauthorized <->
   TOKEN_INFO st = None \/
   exists t, TOKEN_INFO st = Some (Decodable t) /\
     (mint t = None \/ exists m, mint t = Some m /\ minter m <> sender info)) /\
  (snd (execute_update_minter api st env info new_minter) = Err Unauthorized ->
   fst (execute_update_minter api st env info new_minter) = st).
Proof.
  unfold execute_update_minter.
  destruct (TOKEN_INFO st) as [[t|]|] eqn:Ht; simpl.
  - destruct (mint t) as [m|] eqn:Hm; simpl.
    + case_bool_decide as Heq; simpl.
      * destruct new_minter as [nm|]; [destruct (api nm)|]; simpl;
          (split; [split; [discriminate|] |]);
          try discriminate;
          intros [?|[t' [Ht' [?|[m' [Hm' Hne]]]]]]; try discriminate;
          injection Ht' as <-; congruence.
      * split; [split; [intros _; right; exists t; eauto|done]|done].
    + split; [split; [intros _; right; exists t; eauto|done]|done].
  - split; [split; [discriminate|]|discriminate].
    intros [?|[t' [Ht' _]]]; discriminate.
  - split; [split; [intros _; left; done|done]|done].
Qed.

(** C2: a successful [update_minter(Some address)] stores the validated
    address as minter with the cap stored before the call, and leaves every
    other field of the configuration (and the rest of the storage) as it
    was. *)
Theorem update_minter_preserves_cap api st env info a r :
  snd (execute_update_minter api st env info (Some a)) = Ok r ->
  exists t m v,
    TOKEN_INFO st = Some (Decodable t) /\ mint t = Some m /\ minter m = sender info /\
    api a = Ok v /\
    fst (execute_update_minter api st env info (Some a)) =
      set_token_info st (set_mint t (Some {| minter := v; cap := cap m |})).
Proof.
  unfold execute_update_minter.
  destruct (TOKEN_INFO st) as [[t|]|] eqn:Ht; simpl; try discriminate.
  destruct (mint t) as [m|] eqn:Hm; simpl; try discriminate.
  case_bool_decide as Heq; simpl; try discriminate.
  destruct (api a) as [v|] eqn:Hv; simpl; try discriminate.
  intros _. exists t, m, v. repeat split; auto.
Qed.

Lemma update_minter_preserves_cap_witness :
  snd (execute_update_minter mock_addr_validate (state_with_token (token_with_minter "minter"))
         mock_env (info_of "minter") (Some "newbie")) =
    Ok (add_attribute "new_minter" "newbie"
          (add_attribute "action" "update_minter" response_default)) /\
  exists t m v,
    TOKEN_INFO (state_with_token (token_with_minter "minter")) = Some (Decodable t) /\
    mint t = Some m /\ minter m = sender (info_of "minter") /\
    mock_addr_validate "newbie" = Ok v /\
    fst (execute_update_minter mock_addr_validate (state_with_token (token_with_minter "minter"))
           mock_env (info_of "minter") (Some "newbie")) =
      set_token_info (state_with_token (token_with_minter "minter"))
        (set_mint t (Some {| minter := v; cap := cap m |})).
Proof.
  split; [reflexivity|].
  apply (update_minter_preserves_cap mock_addr_validate _ mock_env (info_of "minter") "newbie"
           (add_attribute "new_minter" "newbie"
              (add_attribute "action" "update_minter" response_default))).
  reflexivity.
Defined.

(** C10: [update_minter] never reads its [Env]: two calls that differ only
    in the block (height, time) have the same result and final storage. *)
Theorem update_minter_env_independent api st env1 env2 info new_minter :
  execute_update_minter api st env1 info new_minter =
  execute_update_minter api st env2 info new_minter.
Proof. reflexivity. Qed.

(** ** The token configuration is written by [update_minter] only *)

Lemma deduct_allowance_token_info st owner spender b amount st' :
  deduct_allowance st owner spender b amount = Ok st' -> TOKEN_INFO st' = TOKEN_INFO st.
Proof.
  unfold deduct_allowance.
  destruct (is_expired _ _); [discriminate|].
  destruct (checked_sub _ _); [|discriminate].
  intros [= <-]. reflexivity.
Qed.

Lemma debit_token_info st addr amount st' :
  debit st addr amount = Ok st' -> TOKEN_INFO st' = TOKEN_INFO st.
Proof. unfold debit. destruct (checked_sub _ _); [intros [= <-]|]; done. Qed.

Lemma credit_token_info st addr amount st' :
  credit st addr amount = Ok st' -> TOKEN_INFO st' = TOKEN_INFO st.
Proof. unfold credit. destruct (checked_add _ _); [intros [= <-]|]; done. Qed.

Ltac chain_token_info :=
  repeat match goal with
  | |- context [match deduct_allowance ?s ?o ?p ?b ?a with _ => _ end] =>
      destruct (deduct_allowance s o p b a) eqn:?; simpl
  | |- context [match debit ?s ?o ?a with _ => _ end] =>
      destruct (debit s o a) eqn:?; simpl
  | |- context [match credit ?s ?o ?a with _ => _ end] =>
      destruct (credit s o a) eqn:?; simpl
  | H : deduct_allowance _ _ _ _ _ = Ok _ |- _ => apply deduct_allowance_token_info in H
  | H : debit _ _ _ = Ok _ |- _ => apply debit_token_info in H
  | H : credit _ _ _ = Ok _ |- _ => apply credit_token_info in H
  end; try congruence.

(** Every call other than [UpdateMinter] leaves [TOKEN_INFO] as it was. *)
Lemma allowance_calls_token_info api st env info msg :
  (forall nm, msg <> UpdateMinter nm) ->
  TOKEN_INFO (fst (execute api st env info msg)) = TOKEN_INFO st.
Proof.
  intros Hmsg. destruct msg as [s a e|s a e|o r a|o a|o c a m|nm]; simpl.
  - unfold execute_increase_allowance.
    destruct (map_err _ _); simpl; [|done].
    case_bool_decide; simpl; [done|].
    destruct (next_expiration _ _ _); simpl; [|done].
    destruct (map_err _ _); done.
  - unfold execute_decrease_allowance.
    destruct (map_err _ _); simpl; [|done].
    case_bool_decide; simpl; [done|].
    destruct (next_expiration _ _ _); done.
  - unfold execute_transfer_from. chain_token_info.
  - unfold execute_burn_from. chain_token_info.
  - unfold execute_send_from. chain_token_info.
  - by destruct (Hmsg nm).
Qed.

(** With a decoded configuration and no mint authority, [update_minter]
    fails with [Unauthorized] and writes nothing. *)
Lemma update_minter_without_authority api st env info nm t :
  TOKEN_INFO st = Some (Decodable t) -> mint t = None ->
  execute_update_minter api st env info nm = (st, Err Unauthorized).
Proof. intros Ht Hm. unfold execute_update_minter. rewrite Ht. simpl. by rewrite Hm. Qed.

Definition mint_cleared (st : State) : Prop :=
  exists t, TOKEN_INFO st = Some (Decodable t) /\ mint t = None.

Lemma mint_cleared_step api st env info msg :
  mint_cleared st -> mint_cleared (commit st (execute api st env info msg)).
Proof.
  intros Hc. unfold commit.
  destruct (snd (execute api st env info msg)) as [resp|err] eqn:Hr; [|done].
  destruct msg as [s a e|s a e|o r a|o a|o c a m|nm] eqn:Hmsg;
    try (destruct Hc as [t [Ht Hm]]; exists t; split; [|done];
         rewrite <- Ht; apply (allowance_calls_token_info api st env info);
         intros ? ?; discriminate).
  destruct Hc as [t [Ht Hm]]. simpl in Hr.
  rewrite (update_minter_without_authority api st env info nm t Ht Hm) in Hr.
  discriminate.
Qed.

Lemma mint_cleared_reachable api st0 st :
  mint_cleared st0 -> reachable api st0 st -> mint_cleared st.
Proof. intros H0 Hr. induction Hr; [done|]. by apply mint_cleared_step. Qed.

(** C3: once the current minter clears the mint authority with
    [update_minter(None)], the authority is absent, and in every state
    reachable afterwards every [update_minter] call, by any caller, fails
    with [Unauthorized]. *)
Theorem update_minter_clear_absorbing api st env info r :
  snd (execute_update_minter api st env info None) = Ok r ->
  mint_cleared (fst (execute_update_minter api st env info None)) /\
  forall st' env' info' nm,
    reachable api (fst (execute_update_minter api st env info None)) st' ->
    snd (execute_update_minter api st' env' info' nm) = Err Unauthorized.
Proof.
  intros Hok.
  assert (Hc : mint_cleared (fst (execute_update_minter api st env info None))).
  { revert Hok. unfold execute_update_minter.
    destruct (TOKEN_INFO st) as [[t|]|]; simpl; try discriminate.
    destruct (mint t) as [m|]; simpl; try discriminate.
    case_bool_decide; simpl; try discriminate.
    intros _. exists (set_mint t None). done. }
  split; [done|].
  intros st' env' info' nm Hreach.
  destruct (mint_cleared_reachable _ _ _ Hc Hreach) as [t [Ht Hm]].
  by rewrite (update_minter_without_authority api st' env' info' nm t Ht Hm).
Qed.

Lemma update_minter_clear_absorbing_witness :
  snd (execute_update_minter mock_addr_validate (state_with_token (token_with_minter "minter"))
         mock_env (info_of "minter") None) =
    Ok (add_attribute "new_minter" "None"
          (add_attribute "action" "update_minter" response_default)) /\
  mint_cleared (fst (execute_update_minter mock_addr_validate
                       (state_with_token (token_with_minter "minter"))
                       mock_env (info_of "minter") None)) /\
  forall st' env' info' nm,
    reachable mock_addr_validate
      (fst (execute_update_minter mock_addr_validate
              (state_with_token (token_with_minter "minter")) mock_env (info_of "minter") None))
      st' ->
    snd (execute_update_minter mock_addr_validate st' env' info' nm) = Err Unauthorized.
Proof.
  split; [reflexivity|].
  apply (update_minter_clear_absorbing mock_addr_validate
           (state_with_token (token_with_minter "minter")) mock_env (info_of "minter")
           (add_attribute "new_minter" "None"
              (add_attribute "action" "update_minter" response_default))).
  reflexivity.
Defined.

(** ** Stored allowances and their remaining amount *)

Definition map_positive (m : gmap (string * string) AllowanceResponse) : Prop :=
  forall k r, m !! k = Some r -> 0 < allowance r.

Definition allowances_positive (st : State) : Prop := map_positive (ALLOWANCES st).

Lemma map_positive_insert m k r :
  map_positive m -> 0 < allowance r -> map_positive (<[k := r]> m).
Proof.
  intros Hm Hr k' r'. rewrite lookup_insert. case_decide; [intros [= <-]; done|].
  apply Hm.
Qed.

Lemma map_positive_delete m k : map_positive m -> map_positive (delete k m).
Proof.
  intros Hm k' r'. rewrite lookup_delete. case_decide; [discriminate|]. apply Hm.
Qed.

Lemma map_positive_empty : map_positive ∅.
Proof. intros k r. by rewrite lookup_empty. Qed.

(** Writing [remaining] deletes the record at zero, else stores it. *)
Lemma map_positive_store m k (remaining : N) e :
  map_positive m ->
  map_positive (if bool_decide (remaining = 0) then delete k m
                else <[k := {| allowance := remaining; expires := e |}]> m).
Proof.
  intros Hm. case_bool_decide as H0.
  - by apply map_positive_delete.
  - apply map_positive_insert; [done|]. simpl. lia.
Qed.

Lemma deduct_allowance_positive st owner spender b amount st' :
  allowances_positive st -> deduct_allowance st owner spender b amount = Ok st' ->
  allowances_positive st'.
Proof.
  unfold deduct_allowance. intros Hp.
  destruct (is_expired _ _); [discriminate|].
  destruct (checked_sub _ _); [|discriminate].
  intros [= <-]. by apply map_positive_store.
Qed.

Lemma debit_allowances st addr amount st' :
  debit st addr amount = Ok st' -> ALLOWANCES st' = ALLOWANCES st.
Proof. unfold debit. destruct (checked_sub _ _); [intros [= <-]|]; done. Qed.

Lemma credit_allowances st addr amount st' :
  credit st addr amount = Ok st' -> ALLOWANCES st' = ALLOWANCES st.
Proof. unfold credit. destruct (checked_add _ _); [intros [= <-]|]; done. Qed.

(** An [IncreaseAllowance] of zero on a pair with no stored record. *)
Definition zero_increase_on_absent (api : string -> result Addr StdError) (st : State)
    (info : MessageInfo) (msg : ExecuteMsg) : Prop :=
  match msg with
  | IncreaseAllowance s amount _ =>
      amount = 0 /\ exists a, api s = Ok a /\ ALLOWANCES st !! (sender info, a) = None
  | _ => False
  end.

(** States reachable by calls none of which is such a zero increase. *)
Inductive reachable_without_zero_grant (api : string -> result Addr StdError) (st0 : State)
    : State -> Prop :=
  | rwz_refl : reachable_without_zero_grant api st0 st0
  | rwz_step st env info msg :
      reachable_without_zero_grant api st0 st ->
      ~ zero_increase_on_absent api st info msg ->
      reachable_without_zero_grant api st0 (commit st (execute api st env info msg)).

Ltac chain_positive :=
  repeat match goal with
  | |- context [match deduct_allowance ?s ?o ?p ?b ?a with _ => _ end] =>
      destruct (deduct_allowance s o p b a) eqn:?; simpl
  | |- context [match debit ?s ?o ?a with _ => _ end] =>
      destruct (debit s o a) eqn:?; simpl
  | |- context [match credit ?s ?o ?a with _ => _ end] =>
      destruct (credit s o a) eqn:?; simpl
  end.

Lemma allowances_positive_step api st env info msg :
  allowances_positive st -> ~ zero_increase_on_absent api st info msg ->
  allowances_positive (commit st (execute api st env info msg)).
Proof.
  intros Hp Hz. unfold commit.
  destruct (snd (execute api st env info msg)) as [resp|err] eqn:Hr; [|done].
  revert Hr. destruct msg as [s a e|s a e|o rc a|o a|o c a m|nm]; simpl.
  - unfold execute_increase_allowance.
    destruct (map_err Std (api s)) as [sa|] eqn:Hs; simpl; [|discriminate].
    apply map_err_ok in Hs.
    case_bool_decide; simpl; [discriminate|].
    destruct (next_expiration _ _ _); simpl; [|discriminate].
    destruct (map_err Std (checked_add _ a)) as [rem|] eqn:Hadd; simpl; [|discriminate].
    apply map_err_ok in Hadd. unfold checked_add in Hadd.
    case_decide; [|discriminate]. injection Hadd as <-.
    intros _. apply map_positive_insert; [done|]. simpl.
    unfold load_allowance.
    destruct (ALLOWANCES st !! (sender info, sa)) as [cur|] eqn:Hcur; simpl.
    + pose proof (Hp _ _ Hcur). lia.
    + destruct (decide (a = 0)) as [->|]; [|lia].
      exfalso. apply Hz. simpl. eauto.
  - unfold execute_decrease_allowance.
    destruct (map_err Std (api s)); simpl; [|discriminate].
    case_bool_decide; simpl; [discriminate|].
    destruct (next_expiration _ _ _); simpl; [|discriminate].
    intros _. by apply map_positive_store.
  - unfold execute_transfer_from. chain_positive; try discriminate. intros _.
    apply credit_allowances in Heqr1. apply debit_allowances in Heqr0.
    unfold allowances_positive. rewrite Heqr1, Heqr0.
    by eapply deduct_allowance_positive.
  - unfold execute_burn_from. chain_positive; try discriminate. intros _.
    apply debit_allowances in Heqr0.
    unfold allowances_positive. rewrite Heqr0.
    by eapply deduct_allowance_positive.
  - unfold execute_send_from. chain_positive; try discriminate. intros _.
    apply credit_allowances in Heqr1. apply debit_allowances in Heqr0.
    unfold allowances_positive. rewrite Heqr1, Heqr0.
    by eapply deduct_allowance_positive.
  - unfold execute_update_minter.
    destruct (map_err Std (may_load _)) as [[cfg|]|]; simpl; try discriminate.
    destruct (mint cfg); simpl; [|discriminate].
    case_bool_decide; simpl; [|discriminate].
    destruct nm as [nm|]; [destruct (api nm)|]; simpl; try discriminate; done.
Qed.

(** The token of the tests, with no allowance granted yet. *)
Definition st_init : State := state_with_token (token_with_minter "minter").

Lemma st_init_positive : allowances_positive st_init.
Proof. apply map_positive_empty. Qed.

(** C4 (as stated, refuted): an [IncreaseAllowance] of zero by
    [addr0001] for [addr0002], on a pair with no record, is a successful
    call that stores the record [{remaining: 0, expiration: Never}]. *)
Lemma allowance_positive_counterexample :
  ~ (forall st, reachable mock_addr_validate st_init st -> allowances_positive st).
Proof.
  intros Hall.
  assert (Hr : reachable mock_addr_validate st_init
                 (commit st_init (execute mock_addr_validate st_init mock_env
                    (info_of "addr0001") (IncreaseAllowance "addr0002" 0 None)))).
  { apply reach_step, reach_refl. }
  specialize (Hall _ Hr ("addr0001", "addr0002") {| allowance := 0; expires := Never |}).
  assert (0 < 0) by (apply Hall; reflexivity). lia.
Qed.

(** C4 (amended): from a state whose stored allowances all have
    [remaining > 0], every state reached by calls none of which is an
    increase by zero on a pair without a record still has only records with
    [remaining > 0]: decreases and delegated spends delete a record whose
    remaining reaches zero, and any other increase stores a positive amount. *)
Theorem allowance_positive_invariant api st0 st :
  allowances_positive st0 -> reachable_without_zero_grant api st0 st ->
  allowances_positive st.
Proof.
  intros H0 Hr. induction Hr as [|st env info msg Hr IH Hz]; [done|].
  by apply allowances_positive_step.
Qed.

(** Two increases and a spend that uses the whole allowance. *)
Definition c4_calls : list (Env * MessageInfo * ExecuteMsg) :=
  [(mock_env, info_of "addr0001", IncreaseAllowance "addr0002" 7777 None);
   (mock_env, info_of "addr0001", IncreaseAllowance "addr0002" 0 None);
   (mock_env, info_of "addr0002", TransferFrom "addr0001" "addr0003" 7777)].

Lemma allowance_positive_invariant_witness :
  ALLOWANCES (run mock_addr_validate st_init c4_calls) = ∅ /\
  allowances_positive (run mock_addr_validate st_init c4_calls).
Proof.
  split; [reflexivity|].
  apply (allowance_positive_invariant mock_addr_validate st_init); [apply st_init_positive|].
  unfold c4_calls, run.
  repeat (apply rwz_step;
          [|simpl; first [intros [Hz0 _]; discriminate
                         | intros [_ [? [[= <-] Habs]]]; vm_compute in Habs; discriminate
                         | intros []]]).
  apply rwz_refl.
Defined.

(** ** Claims on the allowance query and allowance updates *)

(** C5: for two addresses that pass validation, [GetAllowance] does not
    fail: it returns the stored record, and the default
    [{remaining: 0, expiration: Never}] when the pair has none. *)
Theorem query_allowance_total api st owner spender o s :
  api owner = Ok o -> api spender = Ok s ->
  query_allowance api st owner spender = Ok (load_allowance st o s) /\
  (ALLOWANCES st !! (o, s) = None ->
   query_allowance api st owner spender = Ok {| allowance := 0; expires := Never |}).
Proof.
  intros Ho Hs. unfold query_allowance. rewrite Ho, Hs.
  split; [done|]. intros Hnone. unfold load_allowance. by rewrite Hnone.
Qed.

Lemma query_allowance_total_witness :
  query_allowance mock_addr_validate st_init "addr0001" "addr0002" =
    Ok (load_allowance st_init "addr0001" "addr0002") /\
  (ALLOWANCES st_init !! ("addr0001", "addr0002") = None ->
   query_allowance mock_addr_validate st_init "addr0001" "addr0002" =
     Ok {| allowance := 0; expires := Never |}).
Proof. apply query_allowance_total; reflexivity. Defined.

(** The sequence of the test [increase_decrease_allowances]. *)
Definition T_8888888888 : N := 8888888888 * 1000000000.

Definition c6_calls : list (Env * MessageInfo * ExecuteMsg) :=
  [(mock_env, info_of "addr0001", IncreaseAllowance "addr0002" 7777 (Some (AtHeight 123456)));
   (mock_env, info_of "addr0001", DecreaseAllowance "addr0002" 4444 None)].

Definition c6_override : Env * MessageInfo * ExecuteMsg :=
  (mock_env, info_of "addr0001", IncreaseAllowance "addr0002" 87654 (Some (AtTime T_8888888888))).

Example increase_decrease_allowances_end :
  query_allowance mock_addr_validate
    (run mock_addr_validate st_init
       (c6_calls ++ [c6_override;
                     (mock_env, info_of "addr0001",
                      DecreaseAllowance "addr0002" 99988647623876347 None)]))
    "addr0001" "addr0002" = Ok allowance_default.
Proof. reflexivity. Qed.

(** C6 (as stated, refuted): a decrease carrying [AtHeight 123456] that
    uses up a [{7777, Never}] allowance succeeds and deletes the record, so
    no record with the supplied expiration is stored and the pair reads
    [{remaining: 0, expiration: Never}]. *)
Lemma expiration_update_counterexample :
  let st := run mock_addr_validate st_init
              [(mock_env, info_of "addr0001", IncreaseAllowance "addr0002" 7777 None)] in
  let x := execute_decrease_allowance mock_addr_validate st mock_env (info_of "addr0001")
             "addr0002" 7777 (Some (AtHeight 123456)) in
  is_ok (snd x) = true /\
  ALLOWANCES (fst x) !! ("addr0001", "addr0002") = None /\
  query_allowance mock_addr_validate (fst x) "addr0001" "addr0002" =
    Ok {| allowance := 0; expires := Never |}.
Proof. vm_compute. repeat split. Qed.

(** C6 (amended): a successful increase stores the supplied expiration, or
    the previously stored one (Never without a record) when none is
    supplied; so does a successful decrease that leaves [remaining > 0],
    while a decrease that brings it to zero deletes the record whatever
    expiration is supplied.  On the test's sequence, increase(7777,
    AtHeight 123456) then decrease(4444, None) reads
    [{3333, AtHeight 123456}], and a further increase(87654, AtTime T)
    reads [{90987, AtTime T}]. *)
Theorem allowance_expiration_update api st env info s a amt e st' r :
  api s = Ok a ->
  let cur := load_allowance st (sender info) a in
  let exp := default (expires cur) e in
  (execute_increase_allowance api st env info s amt e = (st', Ok r) ->
   ALLOWANCES st' !! (sender info, a) =
     Some {| allowance := allowance cur + amt; expires := exp |}) /\
  (execute_decrease_allowance api st env info s amt e = (st', Ok r) ->
   amt < allowance cur ->
   ALLOWANCES st' !! (sender info, a) =
     Some {| allowance := allowance cur - amt; expires := exp |}) /\
  (execute_decrease_allowance api st env info s amt e = (st', Ok r) ->
   allowance cur <= amt -> ALLOWANCES st' !! (sender info, a) = None) /\
  query_allowance mock_addr_validate (run mock_addr_validate st_init c6_calls)
    "addr0001" "addr0002" = Ok {| allowance := 3333; expires := AtHeight 123456 |} /\
  query_allowance mock_addr_validate (run mock_addr_validate st_init (c6_calls ++ [c6_override]))
    "addr0001" "addr0002" = Ok {| allowance := 90987; expires := AtTime T_8888888888 |}.
Proof.
  intros Hs cur exp.
  assert (Hnext : forall ex, next_expiration env cur e = Ok ex -> ex = exp).
  { intros ex. unfold next_expiration, exp.
    destruct e as [e|]; simpl; [|congruence].
    destruct (is_future e (block env)); congruence. }
  split; [|split; [|split; [|split; reflexivity]]].
  - unfold execute_increase_allowance. rewrite Hs. simpl.
    case_bool_decide; [congruence|].
    fold cur. destruct (next_expiration env cur e) as [ex|] eqn:Hex; simpl; [|congruence].
    destruct (map_err Std (checked_add _ amt)) as [rem|] eqn:Hadd; simpl; [|congruence].
    apply map_err_ok in Hadd. unfold checked_add in Hadd.
    case_decide; [|discriminate]. injection Hadd as <-.
    intros [= <- _]. simpl. rewrite lookup_insert_eq. by rewrite (Hnext ex eq_refl).
  - unfold execute_decrease_allowance. rewrite Hs. simpl.
    case_bool_decide; [congruence|].
    fold cur. destruct (next_expiration env cur e) as [ex|] eqn:Hex; simpl; [|congruence].
    intros [= <- _] Hlt. simpl. unfold saturating_sub.
    case_bool_decide; [lia|]. rewrite lookup_insert_eq. by rewrite (Hnext ex eq_refl).
  - unfold execute_decrease_allowance. rewrite Hs. simpl.
    case_bool_decide; [congruence|].
    fold cur. destruct (next_expiration env cur e) as [ex|] eqn:Hex; simpl; [|congruence].
    intros [= <- _] Hle. simpl. unfold saturating_sub.
    case_bool_decide; [|lia]. by rewrite lookup_delete_eq.
Qed.

Definition c6_response : Response :=
  add_attribute "amount" (pretty (7777 : N))
    (add_attribute "spender" "addr0002"
    (add_attribute "owner" "addr0001"
    (add_attribute "action" "increase_allowance" response_default))).

Lemma allowance_expiration_update_witness :
  ALLOWANCES (fst (execute_increase_allowance mock_addr_validate st_init mock_env
                     (info_of "addr0001") "addr0002" 7777 (Some (AtHeight 123456))))
    !! ("addr0001", "addr0002") = Some {| allowance := 7777; expires := AtHeight 123456 |}.
Proof.
  pose proof (allowance_expiration_update mock_addr_validate st_init mock_env
                (info_of "addr0001") "addr0002" "addr0002" 7777 (Some (AtHeight 123456))
                (fst (execute_increase_allowance mock_addr_validate st_init mock_env
                        (info_of "addr0001") "addr0002" 7777 (Some (AtHeight 123456))))
                c6_response eq_refl) as H.
  cbv zeta in H. destruct H as [Hinc _].
  change (sender (info_of "addr0001")) with "addr0001" in Hinc.
  rewrite Hinc; vm_compute; reflexivity.
Defined.

(** ** Expirations set by increase and decrease *)

(** C7 (as stated, refuted): an increase or decrease by [addr0001] naming
    itself as spender and carrying the expired [AtHeight 12345] fails with
    [CannotSetOwnAccount], not [InvalidExpiration]. *)
Lemma expiration_check_counterexample :
  snd (execute_increase_allowance mock_addr_validate st_init mock_env (info_of "addr0001")
         "addr0001" 7777 (Some (AtHeight (height mock_block)))) = Err CannotSetOwnAccount /\
  snd (execute_decrease_allowance mock_addr_validate st_init mock_env (info_of "addr0001")
         "addr0001" 7777 (Some (AtHeight (height mock_block)))) = Err CannotSetOwnAccount.
Proof. split; reflexivity. Qed.

(** C7 (amended): for a spender that is a valid address other than the
    caller, an increase or a decrease carrying an expiration that is not
    strictly in the future ([AtHeight h] with [h <= height], [AtTime t]
    with [t <= time]) fails with [InvalidExpiration]; one carrying an
    expiration one unit in the future succeeds (an increase provided the
    new remaining fits in [Uint128]). *)
Theorem expiration_must_be_future api st env info s a amt :
  api s = Ok a -> a <> sender info ->
  (forall e,
     (exists h, e = AtHeight h /\ h <= height (block env)) \/
     (exists t, e = AtTime t /\ t <= time (block env)) ->
     snd (execute_increase_allowance api st env info s amt (Some e)) = Err InvalidExpiration /\
     snd (execute_decrease_allowance api st env info s amt (Some e)) = Err InvalidExpiration) /\
  (forall e,
     e = AtHeight (height (block env) + 1) \/ e = AtTime (time (block env) + 1) ->
     is_ok (snd (execute_decrease_allowance api st env info s amt (Some e))) = true /\
     (allowance (load_allowance st (sender info) a) + amt <= UINT128_MAX ->
      is_ok (snd (execute_increase_allowance api st env info s amt (Some e))) = true)).
Proof.
  intros Hs Hne.
  unfold execute_increase_allowance, execute_decrease_allowance. rewrite Hs. simpl.
  case_bool_decide; [congruence|]. simpl.
  split.
  - intros e Hpast.
    assert (Hf : is_future e (block env) = false).
    { destruct Hpast as [[h [-> Hh]]|[t [-> Ht]]]; simpl;
        apply bool_decide_eq_false_2; lia. }
    unfold next_expiration. rewrite Hf. simpl. done.
  - intros e Hnext.
    assert (Hf : is_future e (block env) = true).
    { destruct Hnext as [->| ->]; simpl; apply bool_decide_eq_true_2; lia. }
    unfold next_expiration. rewrite Hf. simpl.
    split; [done|]. intros Hfit.
    unfold checked_add. case_decide; [done|lia].
Qed.

Lemma expiration_must_be_future_witness :
  (forall e,
     (exists h, e = AtHeight h /\ h <= height (block mock_env)) \/
     (exists t, e = AtTime t /\ t <= time (block mock_env)) ->
     snd (execute_increase_allowance mock_addr_validate st_init mock_env (info_of "addr0001")
            "addr0002" 7777 (Some e)) = Err InvalidExpiration /\
     snd (execute_decrease_allowance mock_addr_validate st_init mock_env (info_of "addr0001")
            "addr0002" 7777 (Some e)) = Err InvalidExpiration) /\
  (forall e,
     e = AtHeight (height (block mock_env) + 1) \/ e = AtTime (time (block mock_env) + 1) ->
     is_ok (snd (execute_decrease_allowance mock_addr_validate st_init mock_env
                   (info_of "addr0001") "addr0002" 7777 (Some e))) = true /\
     (allowance (load_allowance st_init (sender (info_of "addr0001")) "addr0002") + 7777
        <= UINT128_MAX ->
      is_ok (snd (execute_increase_allowance mock_addr_validate st_init mock_env
                    (info_of "addr0001") "addr0002" 7777 (Some e))) = true)).
Proof.
  apply (expiration_must_be_future mock_addr_validate st_init mock_env (info_of "addr0001")
           "addr0002" "addr0002" 7777); [reflexivity | discriminate].
Defined.

(** ** Delegated spends *)

(** The owner and amount of a delegated transfer, burn or send. *)
Definition spend_request (msg : ExecuteMsg) : option (Addr * N) :=
  match msg with
  | TransferFrom owner _ amount => Some (owner, amount)
  | BurnFrom owner amount => Some (owner, amount)
  | SendFrom owner _ amount _ => Some (owner, amount)
  | _ => None
  end.

Lemma deduct_allowance_expired st owner spender b amount :
  is_expired (expires (load_allowance st owner spender)) b = true ->
  deduct_allowance st owner spender b amount = Err Expired.
Proof. intros He. unfold deduct_allowance. by rewrite He. Qed.

Lemma deduct_allowance_insufficient st owner spender b amount :
  is_expired (expires (load_allowance st owner spender)) b = false ->
  allowance (load_allowance st owner spender) < amount ->
  deduct_allowance st owner spender b amount =
    Err (Std (Overflow OpSub (allowance (load_allowance st owner spender)) amount)).
Proof.
  intros He Hlt. unfold deduct_allowance. rewrite He.
  unfold checked_sub. case_decide; [lia|done].
Qed.

(** C8: a delegated transfer, burn or send whose stored allowance has
    reached its expiration threshold fails with [Expired], whatever the
    remaining amount; otherwise, one asking for more than the remaining
    allowance fails with the [Overflow] (subtraction) error; in both cases
    the storage (allowances and balances) is left as it was. *)
Theorem delegated_spend_failures api st env info msg owner amount :
  spend_request msg = Some (owner, amount) ->
  let cur := load_allowance st owner (sender info) in
  (is_expired (expires cur) (block env) = true ->
   execute api st env info msg = (st, Err Expired)) /\
  (is_expired (expires cur) (block env) = false -> allowance cur < amount ->
   execute api st env info msg = (st, Err (Std (Overflow OpSub (allowance cur) amount)))).
Proof.
  intros Hreq cur.
  destruct msg as [| |o rc a|o a|o c a m|]; simpl in Hreq; try discriminate;
    injection Hreq as <- <-; simpl;
    unfold execute_transfer_from, execute_burn_from, execute_send_from;
    (split; [intros He; by rewrite deduct_allowance_expired
            |intros He Hlt; by rewrite deduct_allowance_insufficient]).
Qed.

(** The allowance of [transfer_from_respects_limits] after its first
    transfer: 33334 left, raised by 1000 with [AtHeight 12346]. *)
Definition c8_state : State :=
  run mock_addr_validate st_init
    [(mock_env, info_of "addr0001", IncreaseAllowance "addr0002" 77777 None);
     (mock_env, info_of "addr0002", TransferFrom "addr0001" "addr0003" 44444);
     (mock_env, info_of "addr0001",
      IncreaseAllowance "addr0002" 1000 (Some (AtHeight (height mock_block + 1))))].

Lemma delegated_spend_failures_witness :
  execute mock_addr_validate c8_state (with_height mock_env (height mock_block + 1))
    (info_of "addr0002") (TransferFrom "addr0001" "addr0003" 33443) =
  (c8_state, Err Expired).
Proof.
  pose proof (delegated_spend_failures mock_addr_validate c8_state
                (with_height mock_env (height mock_block + 1)) (info_of "addr0002")
                (TransferFrom "addr0001" "addr0003" 33443) "addr0001" 33443 eq_refl) as H.
  cbv zeta in H. destruct H as [Hexp _].
  apply Hexp. vm_compute. reflexivity.
Defined.

(** C9: a successful delegated send emits exactly one message, to the
    target contract, whose [Cw20ReceiveMsg] names the delegated caller (the
    spender) as [sender], with the amount sent and the caller's payload. *)
Theorem send_from_notifies_spender api st env info owner contract amount msg st' r :
  execute api st env info (SendFrom owner contract amount msg) = (st', Ok r) ->
  messages r =
    [WasmExecute contract
       {| rcv_sender := sender info; rcv_amount := amount; rcv_msg := msg |} []].
Proof.
  simpl. unfold execute_send_from.
  destruct (deduct_allowance _ _ _ _ _); simpl; [|discriminate].
  destruct (debit _ _ _); simpl; [|discriminate].
  destruct (credit _ _ _); simpl; [|discriminate].
  intros [= _ <-]. reflexivity.
Qed.

(** The payload [{"some":123}] of [send_from_respects_limits]. *)
Definition send_payload : list Byte.byte :=
  [Byte.x7b; Byte.x22; Byte.x73; Byte.x6f; Byte.x6d; Byte.x65; Byte.x22; Byte.x3a;
   Byte.x31; Byte.x32; Byte.x33; Byte.x7d].

Definition c9_state : State :=
  run mock_addr_validate st_init
    [(mock_env, info_of "addr0001", IncreaseAllowance "addr0002" 77777 None)].

Lemma send_from_notifies_spender_witness :
  messages (match snd (execute mock_addr_validate c9_state mock_env (info_of "addr0002")
                         (SendFrom "addr0001" "addr0003" 44444 send_payload)) with
            | Ok r => r | Err _ => response_default end) =
    [WasmExecute "addr0003"
       {| rcv_sender := "addr0002"; rcv_amount := 44444; rcv_msg := send_payload |} []].
Proof.
  destruct (execute mock_addr_validate c9_state mock_env (info_of "addr0002")
              (SendFrom "addr0001" "addr0003" 44444 send_payload)) as [st' res] eqn:Hx.
  destruct res as [r|err].
  - exact (send_from_notifies_spender mock_addr_validate c9_state mock_env
             (info_of "addr0002") "addr0001" "addr0003" 44444 send_payload st' r Hx).
  - exfalso. vm_compute in Hx. discriminate.
Defined.

(** ** Further properties of [execute_update_minter] *)

(** The response of a call, the default one for a failed call. *)
Definition response_of_exec (x : Exec) : Response :=
  match snd x with Ok r => r | Err _ => response_default end.


(** The response of a successful [update_minter]: no message, the
    attributes [action] and [new_minter], the latter the validated address
    or ["None"]. *)
Theorem update_minter_response api st env info nm st' r :
  execute_update_minter api st env info nm = (st', Ok r) ->
  messages r = [] /\
  (nm = None ->
   attributes r = [("action", "update_minter"); ("new_minter", "None")]) /\
  (forall a, nm = Some a -> exists v, api a = Ok v /\
   attributes r = [("action", "update_minter"); ("new_minter", v)]).
Proof.
  unfold execute_update_minter.
  destruct (TOKEN_INFO st) as [[t|]|]; simpl; try discriminate.
  destruct (mint t) as [m|]; simpl; try discriminate.
  case_bool_decide; simpl; try discriminate.
  destruct nm as [a|].
  - destruct (api a) as [v|] eqn:Hv; simpl; [|discriminate].
    intros [= _ <-]. split; [done|]. split; [discriminate|].
    intros a' [= <-]. eauto.
  - simpl. intros [= _ <-]. split; [done|]. split; [done|]. discriminate.
Qed.

Lemma update_minter_response_witness :
  messages (response_of_exec (execute_update_minter mock_addr_validate st_init mock_env
                                (info_of "minter") (Some "newbie"))) = [] /\
  attributes (response_of_exec (execute_update_minter mock_addr_validate st_init mock_env
                                  (info_of "minter") (Some "newbie"))) =
    [("action", "update_minter"); ("new_minter", "newbie")].
Proof.
  destruct (update_minter_response mock_addr_validate st_init mock_env (info_of "minter")
              (Some "newbie") (fst (execute_update_minter mock_addr_validate st_init mock_env
                                     (info_of "minter") (Some "newbie")))
              (response_of_exec (execute_update_minter mock_addr_validate st_init mock_env
                                   (info_of "minter") (Some "newbie"))) eq_refl)
    as [Hm [_ Hs]].
  split; [exact Hm|].
  destruct (Hs "newbie" eq_refl) as [v [Hv Ha]]. injection Hv as <-. exact Ha.
Defined.

(** An invalid new minter address, named by the current minter, fails
    with the address validation error and writes nothing. *)
Theorem update_minter_invalid_address api st env info a t m e :
  TOKEN_INFO st = Some (Decodable t) -> mint t = Some m -> minter m = sender info ->
  api a = Err e ->
  execute_update_minter api st env info (Some a) = (st, Err (Std e)).
Proof.
  intros Ht Hm Hs Ha. unfold execute_update_minter. rewrite Ht. simpl. rewrite Hm. simpl.
  case_bool_decide; [|congruence]. simpl. by rewrite Ha.
Qed.

Lemma update_minter_invalid_address_witness :
  execute_update_minter mock_addr_validate st_init mock_env (info_of "minter")
    (Some EmptyString) = (st_init, Err (Std (GenericErr "Invalid input: empty"))).
Proof.
  apply (update_minter_invalid_address mock_addr_validate st_init mock_env (info_of "minter")
           EmptyString (token_with_minter "minter") {| minter := "minter"; cap := Some 99999999 |});
    reflexivity.
Defined.

(** A successful [update_minter(None)] was called by the current minter
    and stores the same configuration with the mint authority removed;
    balances and allowances are untouched. *)
Theorem update_minter_clear_frame api st env info r :
  snd (execute_update_minter api st env info None) = Ok r ->
  exists t m,
    TOKEN_INFO st = Some (Decodable t) /\ mint t = Some m /\ minter m = sender info /\
    fst (execute_update_minter api st env info None) = set_token_info st (set_mint t None).
Proof.
  unfold execute_update_minter.
  destruct (TOKEN_INFO st) as [[t|]|]; simpl; try discriminate.
  destruct (mint t) as [m|] eqn:Hm; simpl; try discriminate.
  case_bool_decide; simpl; try discriminate.
  intros _. exists t, m. done.
Qed.

Lemma update_minter_clear_frame_witness :
  exists t m,
    TOKEN_INFO st_init = Some (Decodable t) /\ mint t = Some m /\
    minter m = sender (info_of "minter") /\
    fst (execute_update_minter mock_addr_validate st_init mock_env (info_of "minter") None) =
      set_token_info st_init (set_mint t None).
Proof.
  apply (update_minter_clear_frame mock_addr_validate st_init mock_env (info_of "minter")
           (response_of_exec (execute_update_minter mock_addr_validate st_init mock_env
                                (info_of "minter") None))).
  reflexivity.
Defined.

(** The current minter naming itself (an address that validates to the
    caller) leaves the storage exactly as it was. *)
Theorem update_minter_self_noop api st env info a t m :
  TOKEN_INFO st = Some (Decodable t) -> mint t = Some m -> minter m = sender info ->
  api a = Ok (sender info) ->
  fst (execute_update_minter api st env info (Some a)) = st /\
  is_ok (snd (execute_update_minter api st env info (Some a))) = true.
Proof.
  intros Ht Hm Hs Ha. unfold execute_update_minter. rewrite Ht. simpl. rewrite Hm. simpl.
  case_bool_decide; [|congruence]. simpl. rewrite Ha. simpl. split; [|done].
  destruct st as [ti b al]; simpl in *. subst ti.
  destruct t as [n s d ts mt]; simpl in *. subst mt.
  destruct m as [mm c]; simpl in *. subst mm. reflexivity.
Qed.

Lemma update_minter_self_noop_witness :
  fst (execute_update_minter mock_addr_validate st_init mock_env (info_of "minter")
         (Some "minter")) = st_init /\
  is_ok (snd (execute_update_minter mock_addr_validate st_init mock_env (info_of "minter")
                (Some "minter"))) = true.
Proof.
  apply (update_minter_self_noop mock_addr_validate st_init mock_env (info_of "minter")
           "minter" (token_with_minter "minter") {| minter := "minter"; cap := Some 99999999 |});
    reflexivity.
Defined.

(** Handing the authority to another address: afterwards the former
    minter is refused on every [update_minter] call, and the new minter can
    clear the authority or pass it to any address that validates. *)
Theorem update_minter_handover api st env info a v :
  is_ok (snd (execute_update_minter api st env info (Some a))) = true ->
  api a = Ok v -> v <> sender info ->
  let st' := fst (execute_update_minter api st env info (Some a)) in
  (forall env' nm, snd (execute_update_minter api st' env' info nm) = Err Unauthorized) /\
  (forall env' nm,
     (forall b, nm = Some b -> is_ok (api b) = true) ->
     is_ok (snd (execute_update_minter api st' env' (info_of v) nm)) = true).
Proof.
  intros Hok Ha Hne st'. subst st'. revert Hok.
  unfold execute_update_minter at 1 3 5.
  destruct (TOKEN_INFO st) as [[t|]|]; simpl; try discriminate.
  destruct (mint t) as [m|]; simpl; try discriminate.
  case_bool_decide; simpl; try discriminate.
  rewrite Ha. simpl. intros _. split.
  - intros env' nm. unfold execute_update_minter. simpl.
    case_bool_decide; [congruence|]. done.
  - intros env' nm Hnm. unfold execute_update_minter. simpl.
    case_bool_decide as Hv; [|done]. simpl.
    destruct nm as [b|]; [|done].
    specialize (Hnm b eq_refl). destruct (api b); done.
Qed.

Lemma update_minter_handover_witness :
  (forall env' nm,
     snd (execute_update_minter mock_addr_validate
            (fst (execute_update_minter mock_addr_validate st_init mock_env (info_of "minter")
                    (Some "newbie"))) env' (info_of "minter") nm) = Err Unauthorized) /\
  (forall env' nm,
     (forall b, nm = Some b -> is_ok (mock_addr_validate b) = true) ->
     is_ok (snd (execute_update_minter mock_addr_validate
                   (fst (execute_update_minter mock_addr_validate st_init mock_env
                           (info_of "minter") (Some "newbie")))
                   env' (info_of "newbie") nm)) = true).
Proof.
  apply (update_minter_handover mock_addr_validate st_init mock_env (info_of "minter")
           "newbie" "newbie"); [reflexivity | reflexivity | discriminate].
Defined.

(** The supply cap of a stored mint authority is [c]. *)
Definition cap_fixed (c : option N) (st : State) : Prop :=
  exists t, TOKEN_INFO st = Some (Decodable t) /\ forall m, mint t = Some m -> cap m = c.

Lemma cap_fixed_step api c st env info msg :
  cap_fixed c st -> cap_fixed c (commit st (execute api st env info msg)).
Proof.
  intros Hc. unfold commit.
  destruct (snd (execute api st env info msg)) as [resp|err] eqn:Hr; [|done].
  destruct msg as [s a e|s a e|o r a|o a|o c' a m|nm] eqn:Hmsg;
    try (destruct Hc as [t [Ht Hm]]; exists t; split; [|done];
         rewrite <- Ht; apply (allowance_calls_token_info api st env info);
         intros ? ?; discriminate).
  destruct Hc as [t [Ht Hcap]]. simpl in *. revert Hr.
  unfold execute_update_minter. rewrite Ht. simpl.
  destruct (mint t) as [m|] eqn:Hm; simpl; [|discriminate].
  case_bool_decide; simpl; [|discriminate].
  destruct nm as [b|]; [destruct (api b) as [v|]|]; simpl; try discriminate;
    intros _; eexists; (split; [reflexivity|]); simpl; intros m' [= <-]; simpl; auto.
Qed.

(** The supply cap never changes: in every state reached by any sequence of
    calls, a stored mint authority carries the cap of the initial one. *)
Theorem mint_cap_immutable api c st0 st :
  cap_fixed c st0 -> reachable api st0 st -> cap_fixed c st.
Proof. intros H0 Hr. induction Hr; [done|]. by apply cap_fixed_step. Qed.

Lemma mint_cap_immutable_witness :
  cap_fixed (Some 99999999)
    (run mock_addr_validate st_init
       [(mock_env, info_of "minter", UpdateMinter (Some "newbie"));
        (mock_env, info_of "newbie", UpdateMinter (Some "third"))]).
Proof.
  apply (mint_cap_immutable mock_addr_validate (Some 99999999) st_init).
  - exists (token_with_minter "minter"). split; [reflexivity|]. intros m [= <-]. reflexivity.
  - apply reach_step, reach_step, reach_refl.
Defined.

(** ** Further properties of the allowance operations *)

(** An increase or decrease whose spender validates to the caller fails
    with [CannotSetOwnAccount], whatever the amount and expiration, and
    writes nothing. *)
Theorem self_allowance_rejected api st env info s amt e :
  api s = Ok (sender info) ->
  execute_increase_allowance api st env info s amt e = (st, Err CannotSetOwnAccount) /\
  execute_decrease_allowance api st env info s amt e = (st, Err CannotSetOwnAccount).
Proof.
  intros Hs. unfold execute_increase_allowance, execute_decrease_allowance.
  rewrite Hs. simpl. case_bool_decide; [done|congruence].
Qed.

Lemma self_allowance_rejected_witness :
  execute_increase_allowance mock_addr_validate st_init mock_env (info_of "addr0001")
    "addr0001" 7777 None = (st_init, Err CannotSetOwnAccount) /\
  execute_decrease_allowance mock_addr_validate st_init mock_env (info_of "addr0001")
    "addr0001" 7777 None = (st_init, Err CannotSetOwnAccount).
Proof. apply self_allowance_rejected. reflexivity. Defined.

(** Allowances are independent per pair: an increase or decrease by
    [owner] for [spender] leaves the record of every other (owner,
    spender) pair, and every balance, as it was. *)
Theorem allowance_update_independent api st env info s a amt e k :
  api s = Ok a -> k <> (sender info, a) ->
  ALLOWANCES (fst (execute_increase_allowance api st env info s amt e)) !! k =
    ALLOWANCES st !! k /\
  ALLOWANCES (fst (execute_decrease_allowance api st env info s amt e)) !! k =
    ALLOWANCES st !! k /\
  BALANCES (fst (execute_increase_allowance api st env info s amt e)) = BALANCES st /\
  BALANCES (fst (execute_decrease_allowance api st env info s amt e)) = BALANCES st.
Proof.
  intros Hs Hk. unfold execute_increase_allowance, execute_decrease_allowance.
  rewrite Hs. simpl. case_bool_decide; simpl; [done|].
  destruct (next_expiration _ _ _); simpl; [|done].
  destruct (map_err Std (checked_add _ _)); simpl.
  - repeat split; try done.
    + by rewrite lookup_insert_ne by congruence.
    + case_bool_decide; [by rewrite lookup_delete_ne by congruence
                        |by rewrite lookup_insert_ne by congruence].
  - repeat split; try done.
    case_bool_decide; [by rewrite lookup_delete_ne by congruence
                      |by rewrite lookup_insert_ne by congruence].
Qed.

Lemma allowance_update_independent_witness :
  ALLOWANCES (fst (execute_increase_allowance mock_addr_validate c9_state mock_env
                     (info_of "addr0001") "addr0003" 87654 None)) !! ("addr0001", "addr0002") =
    Some {| allowance := 77777; expires := Never |}.
Proof.
  destruct (allowance_update_independent mock_addr_validate c9_state mock_env
              (info_of "addr0001") "addr0003" "addr0003" 87654 None ("addr0001", "addr0002")
              eq_refl) as [H _]; [discriminate|].
  rewrite H. reflexivity.
Defined.

Lemma deduct_allowance_balances st owner spender b amount st' :
  deduct_allowance st owner spender b amount = Ok st' -> BALANCES st' = BALANCES st.
Proof.
  unfold deduct_allowance. destruct (is_expired _ _); [discriminate|].
  destruct (checked_sub _ _); [|discriminate]. intros [= <-]. done.
Qed.

Lemma deduct_allowance_remaining st owner spender b amount st' :
  deduct_allowance st owner spender b amount = Ok st' ->
  amount <= allowance (load_allowance st owner spender) /\
  allowance (load_allowance st' owner spender) =
    allowance (load_allowance st owner spender) - amount.
Proof.
  unfold deduct_allowance. destruct (is_expired _ _); [discriminate|].
  unfold checked_sub. case_decide as Hle; [|discriminate]. intros [= <-].
  split; [done|]. unfold load_allowance at 1. simpl.
  case_bool_decide as H0.
  - rewrite lookup_delete_eq. simpl. lia.
  - rewrite lookup_insert_eq. done.
Qed.

(** A successful delegated transfer between two distinct accounts debits
    the owner by the amount, credits the recipient by it, leaves every
    other balance as it was, and lowers the caller's allowance from the
    owner by the amount (which it did not exceed). *)
Theorem transfer_from_effect st env info owner rcpt amt st' r :
  execute_transfer_from st env info owner rcpt amt = (st', Ok r) -> owner <> rcpt ->
  let bal x := default 0 (BALANCES st !! x) in
  BALANCES st' !! owner = Some (bal owner - amt) /\ amt <= bal owner /\
  BALANCES st' !! rcpt = Some (bal rcpt + amt) /\
  (forall x, x <> owner -> x <> rcpt -> BALANCES st' !! x = BALANCES st !! x) /\
  amt <= allowance (load_allowance st owner (sender info)) /\
  allowance (load_allowance st' owner (sender info)) =
    allowance (load_allowance st owner (sender info)) - amt.
Proof.
  intros Hx Hne bal. revert Hx. unfold execute_transfer_from.
  destruct (deduct_allowance st owner (sender info) (block env) amt) as [st1|] eqn:Hd;
    [|discriminate].
  destruct (debit st1 owner amt) as [st2|] eqn:Hdb; [|discriminate].
  destruct (credit st2 rcpt amt) as [st3|] eqn:Hc; [|discriminate].
  intros [= <- _].
  pose proof (deduct_allowance_remaining _ _ _ _ _ _ Hd) as [Hle Hrem].
  pose proof (deduct_allowance_balances _ _ _ _ _ _ Hd) as Hb1.
  unfold debit in Hdb. rewrite Hb1 in Hdb.
  unfold checked_sub in Hdb. case_decide as Hbal; [|discriminate].
  injection Hdb as <-.
  unfold credit in Hc. simpl in Hc. rewrite lookup_insert_ne in Hc by congruence.
  unfold checked_add in Hc. case_decide; [|discriminate].
  injection Hc as <-. simpl.
  split; [by rewrite lookup_insert_ne, lookup_insert_eq by congruence|].
  split; [done|].
  split; [by rewrite lookup_insert_eq|].
  split; [intros x Hx1 Hx2; by rewrite !lookup_insert_ne by congruence|].
  split; [done|].
  rewrite <- Hrem. reflexivity.
Qed.

(** The first transfer of [transfer_from_respects_limits]. *)
Lemma transfer_from_effect_witness :
  let st := run mock_addr_validate
              {| TOKEN_INFO := TOKEN_INFO st_init; BALANCES := {[ "addr0001" := 999999 ]};
                 ALLOWANCES := ∅ |}
              [(mock_env, info_of "addr0001", IncreaseAllowance "addr0002" 77777 None)] in
  let x := execute_transfer_from st mock_env (info_of "addr0002") "addr0001" "addr0003" 44444 in
  BALANCES (fst x) !! "addr0001" = Some 955555 /\
  BALANCES (fst x) !! "addr0003" = Some 44444 /\
  allowance (load_allowance (fst x) "addr0001" "addr0002") = 33333.
Proof.
  intros st x.
  destruct (transfer_from_effect st mock_env (info_of "addr0002") "addr0001" "addr0003" 44444
              (fst x) (response_of_exec x)) as [Ho [_ [Hr [_ [_ Ha]]]]];
    [vm_compute; reflexivity | discriminate |].
  change (sender (info_of "addr0002")) with "addr0002" in Ha.
  rewrite Ho, Hr, Ha. vm_compute. repeat split.
Defined.

(** A successful delegated burn debits the owner by the amount, credits
    nobody (every other balance is unchanged), and lowers the caller's
    allowance from the owner by the amount. *)
Theorem burn_from_effect st env info owner amt st' r :
  execute_burn_from st env info owner amt = (st', Ok r) ->
  let bal x := default 0 (BALANCES st !! x) in
  BALANCES st' !! owner = Some (bal owner - amt) /\ amt <= bal owner /\
  (forall x, x <> owner -> BALANCES st' !! x = BALANCES st !! x) /\
  amt <= allowance (load_allowance st owner (sender info)) /\
  allowance (load_allowance st' owner (sender info)) =
    allowance (load_allowance st owner (sender info)) - amt.
Proof.
  intros Hx bal. revert Hx. unfold execute_burn_from.
  destruct (deduct_allowance st owner (sender info) (block env) amt) as [st1|] eqn:Hd;
    [|discriminate].
  destruct (debit st1 owner amt) as [st2|] eqn:Hdb; [|discriminate].
  intros [= <- _].
  pose proof (deduct_allowance_remaining _ _ _ _ _ _ Hd) as [Hle Hrem].
  pose proof (deduct_allowance_balances _ _ _ _ _ _ Hd) as Hb1.
  unfold debit in Hdb. rewrite Hb1 in Hdb.
  unfold checked_sub in Hdb. case_decide as Hbal; [|discriminate].
  injection Hdb as <-. simpl.
  split; [by rewrite lookup_insert_eq|].
  split; [done|].
  split; [intros x Hx; by rewrite lookup_insert_ne by congruence|].
  split; [done|].
  rewrite <- Hrem. reflexivity.
Qed.

(** The first burn of [burn_from_respects_limits]. *)
Lemma burn_from_effect_witness :
  let st := run mock_addr_validate
              {| TOKEN_INFO := TOKEN_INFO st_init; BALANCES := {[ "addr0001" := 999999 ]};
                 ALLOWANCES := ∅ |}
              [(mock_env, info_of "addr0001", IncreaseAllowance "addr0002" 77777 None)] in
  let x := execute_burn_from st mock_env (info_of "addr0002") "addr0001" 44444 in
  BALANCES (fst x) !! "addr0001" = Some 955555 /\
  allowance (load_allowance (fst x) "addr0001" "addr0002") = 33333.
Proof.
  intros st x.
  destruct (burn_from_effect st mock_env (info_of "addr0002") "addr0001" 44444
              (fst x) (response_of_exec x)) as [Ho [_ [_ [_ Ha]]]];
    [vm_compute; reflexivity |].
  change (sender (info_of "addr0002")) with "addr0002" in Ha.
  rewrite Ho, Ha. vm_compute. repeat split.
Defined.
